(** * gopatch: the statement-list container matcher and replacer

    A shallow embedding of [internal/engine/stmt_list.go].  The Go code works
    on [reflect.Value]s: it inspects the dynamic type of the target, walks the
    fields of the struct it points to, keeps references to those fields and,
    on the replace side, builds a fresh struct with [reflect.New] and copies
    the fields over.  The embedding therefore has

    - run-time type descriptors ([rtype]) with named struct fields,
    - a store of objects ([gmap loc val]) and [reflect.Value]s that are either
      immediate or references to a place inside the store,
    - a small state-and-panic monad in which the reflection primitives, the
      change log and the two collaborators (the statement-list matcher and
      replacer) run. *)

From Stdlib Require Import ZArith Lia.
From stdpp Require Import base option list gmap strings.

Set Warnings "-register-all".

Local Open Scope string_scope.
Local Open Scope list_scope.
Local Open Scope Z_scope.

(** ** Results of Go code that may panic *)

Inductive outcome (A : Type) :=
| Ok (a : A)
| Panic (msg : string).
Arguments Ok {A} a.
Arguments Panic {A} msg.

Definition obind {A B} (o : outcome A) (k : A -> outcome B) : outcome B :=
  match o with
  | Ok a => k a
  | Panic msg => Panic msg
  end.

(** ** [go/token]: positions *)

Module token.

(** [token.Pos] is a Go [int]; the engine is built for 64-bit targets. *)
Definition Pos := Z.

Definition int_min : Z := - 2 ^ 63.
Definition int_max : Z := 2 ^ 63 - 1.

(** Two's-complement wrap-around of a Go [int]. *)
Definition wrap (z : Z) : Z := (z + 2 ^ 63) mod 2 ^ 64 - 2 ^ 63.

(** [p + q] on [token.Pos]. *)
Definition add (p q : Pos) : Pos := wrap (p + q).

Definition in_range (z : Z) : Prop := int_min <= z <= int_max.

End token.

(** ** [reflect]: types *)

Module reflect.

Inductive Kind := Int | Interface | Slice | Struct | Ptr.

Definition Kind_eqb (a b : Kind) : bool :=
  match a, b with
  | Int, Int | Interface, Interface | Slice, Slice
  | Struct, Struct | Ptr, Ptr => true
  | _, _ => false
  end.

(** Type descriptors.  Named types carry their name; a struct type carries
    its fields in declaration order. *)
Inductive rtype :=
| TInt (name : string)
| TInterface (name : string)
| TSlice (elem : rtype)
| TStruct (name : string) (fields : list (string * rtype))
| TPtr (elem : rtype).

Definition rtype_Kind (t : rtype) : Kind :=
  match t with
  | TInt _ => Int
  | TInterface _ => Interface
  | TSlice _ => Slice
  | TStruct _ _ => Struct
  | TPtr _ => Ptr
  end.

(** Identity of types, as [==] on [reflect.Type] decides it. *)
Fixpoint rtype_eqb (a b : rtype) {struct a} : bool :=
  match a, b with
  | TInt n, TInt n' => String.eqb n n'
  | TInterface n, TInterface n' => String.eqb n n'
  | TSlice e, TSlice e' => rtype_eqb e e'
  | TPtr e, TPtr e' => rtype_eqb e e'
  | TStruct n fs, TStruct n' fs' =>
      String.eqb n n' &&
      (fix fields_eqb (xs ys : list (string * rtype)) {struct xs} : bool :=
         match xs, ys with
         | [], [] => true
         | (x, t) :: xs', (y, u) :: ys' =>
             String.eqb x y && rtype_eqb t u && fields_eqb xs' ys'
         | _, _ => false
         end) fs fs'
  | _, _ => false
  end.

(** Addresses of the objects of the store. *)
Definition loc := positive.

(** A place is an object of the store and a path of field indexes into
    it. *)
Definition place : Type := loc * list nat.

(** What memory holds: integers, nil, pointers, slices (by their elements;
    no claim depends on two slices sharing a backing array), interface
    values with their dynamic type, and structs by their fields. *)
Inductive val :=
| VInt (n : Z)
| VNil
| VPtr (p : place)
| VSlice (elems : list val)
| VIface (dyn : rtype) (x : val)
| VStruct (fields : list val).

(** The zero value of a type, what [reflect.New] leaves in fresh memory. *)
Fixpoint zero (t : rtype) : val :=
  match t with
  | TInt _ => VInt 0
  | TInterface _ | TSlice _ | TPtr _ => VNil
  | TStruct _ fs => VStruct (map (fun f => zero (snd f)) fs)
  end.

(** A [reflect.Value]: the zero Value, an immediate value, or an addressable
    value, which is a typed reference to a place in the store. *)
Inductive Value :=
| Invalid
| Direct (t : rtype) (x : val)
| Ref (t : rtype) (p : place).

(** *** The store *)

Fixpoint val_at (x : val) (path : list nat) : option val :=
  match path with
  | [] => Some x
  | i :: path' =>
      match x with
      | VStruct fs =>
          match fs !! i with
          | Some y => val_at y path'
          | None => None
          end
      | _ => None
      end
  end.

Fixpoint val_set (x : val) (path : list nat) (y : val) : option val :=
  match path with
  | [] => Some y
  | i :: path' =>
      match x with
      | VStruct fs =>
          match fs !! i with
          | Some f =>
              match val_set f path' y with
              | Some f' => Some (VStruct (<[i := f']> fs))
              | None => None
              end
          | None => None
          end
      | _ => None
      end
  end.

Definition read (h : gmap loc val) (p : place) : option val :=
  match h !! p.1 with
  | Some x => val_at x p.2
  | None => None
  end.

Definition write (h : gmap loc val) (p : place) (y : val)
  : option (gmap loc val) :=
  match h !! p.1 with
  | Some x =>
      match val_set x p.2 y with
      | Some x' => Some (<[p.1 := x']> h)
      | None => None
      end
  | None => None
  end.

(** What a Value holds at the moment it is read. *)
Definition load (h : gmap loc val) (v : Value) : option val :=
  match v with
  | Invalid => None
  | Direct _ x => Some x
  | Ref _ p => read h p
  end.

(** *** Methods of [reflect.Type] *)

Definition Type_Elem (t : rtype) : outcome rtype :=
  match t with
  | TPtr e | TSlice e => Ok e
  | _ => Panic "reflect: Elem of invalid type"
  end.

Definition Type_NumField (t : rtype) : outcome nat :=
  match t with
  | TStruct _ fs => Ok (length fs)
  | _ => Panic "reflect: NumField of non-struct type"
  end.

Definition Type_Field (t : rtype) (i : nat) : outcome (string * rtype) :=
  match t with
  | TStruct _ fs =>
      match fs !! i with
      | Some f => Ok f
      | None => Panic "reflect: Field index out of bounds"
      end
  | _ => Panic "reflect: Field of non-struct type"
  end.

(** *** Methods of [reflect.Value] *)

Definition Value_Type (v : Value) : outcome rtype :=
  match v with
  | Invalid => Panic "reflect: call of reflect.Value.Type on zero Value"
  | Direct t _ | Ref t _ => Ok t
  end.

(** [v.Elem()]: the value a pointer points to, addressable, or the value
    an interface holds; the zero Value for nil. *)
Definition Value_Elem (h : gmap loc val) (v : Value) : outcome Value :=
  match v with
  | Invalid => Panic "reflect: call of reflect.Value.Elem on zero Value"
  | Direct t _ | Ref t _ =>
      match t with
      | TPtr e =>
          match load h v with
          | Some (VPtr p) => Ok (Ref e p)
          | Some VNil => Ok Invalid
          | _ => Panic "invalid memory"
          end
      | TInterface _ =>
          match load h v with
          | Some (VIface dyn y) => Ok (Direct dyn y)
          | Some VNil => Ok Invalid
          | _ => Panic "invalid memory"
          end
      | _ => Panic "reflect: call of reflect.Value.Elem on non-pointer Value"
      end
  end.

(** [v.Field(i)]: the i-th field of a struct; a field of an addressable
    struct is a reference to the field's storage, not a copy. *)
Definition Value_Field (v : Value) (i : nat) : outcome Value :=
  match v with
  | Invalid => Panic "reflect: call of reflect.Value.Field on zero Value"
  | Direct (TStruct _ fs) x =>
      match fs !! i, x with
      | Some (_, ft), VStruct xs =>
          match xs !! i with
          | Some y => Ok (Direct ft y)
          | None => Panic "invalid memory"
          end
      | Some _, _ => Panic "invalid memory"
      | None, _ => Panic "reflect: Field index out of range"
      end
  | Ref (TStruct _ fs) p =>
      match fs !! i with
      | Some (_, ft) => Ok (Ref ft (p.1, p.2 ++ [i]))
      | None => Panic "reflect: Field index out of range"
      end
  | _ => Panic "reflect: call of reflect.Value.Field on non-struct Value"
  end.

(** Index of the first field called [name]. *)
Fixpoint field_index (fs : list (string * rtype)) (name : string)
  : option nat :=
  match fs with
  | [] => None
  | (n, _) :: fs' =>
      if String.eqb n name then Some O
      else match field_index fs' name with
           | Some i => Some (S i)
           | None => None
           end
  end.

(** [v.FieldByName(name)]: the zero Value if there is no such field. *)
Definition Value_FieldByName (v : Value) (name : string) : outcome Value :=
  match v with
  | Invalid =>
      Panic "reflect: call of reflect.Value.FieldByName on zero Value"
  | Direct (TStruct _ fs) _ | Ref (TStruct _ fs) _ =>
      match field_index fs name with
      | Some i => Value_Field v i
      | None => Ok Invalid
      end
  | _ =>
      Panic "reflect: call of reflect.Value.FieldByName on non-struct Value"
  end.

(** [v.Int()] *)
Definition Value_Int (h : gmap loc val) (v : Value) : outcome Z :=
  match v with
  | Invalid => Panic "reflect: call of reflect.Value.Int on zero Value"
  | Direct (TInt _) _ | Ref (TInt _) _ =>
      match load h v with
      | Some (VInt n) => Ok n
      | _ => Panic "invalid memory"
      end
  | _ => Panic "reflect: call of reflect.Value.Int on non-int Value"
  end.

(** [dst.Set(x)]: [dst] must be addressable and [x] of a type assignable
    to its type; the code at hand only ever assigns between identical
    types, and to exported fields.  The content of [x] is read when the
    assignment is made. *)
Definition Value_Set (h : gmap loc val) (dst x : Value)
  : outcome (gmap loc val) :=
  match dst, x with
  | Invalid, _ => Panic "reflect: call of reflect.Value.Set on zero Value"
  | Direct _ _, _ => Panic "reflect.Value.Set using unaddressable value"
  | Ref _ _, Invalid => Panic "reflect: call of reflect.Value.Set on zero Value"
  | Ref t p, (Direct u _ | Ref u _) =>
      if rtype_eqb u t then
        match load h x with
        | Some y =>
            match write h p y with
            | Some h' => Ok h'
            | None => Panic "invalid memory"
            end
        | None => Panic "invalid memory"
        end
      else Panic "reflect.Set: value is not assignable to type"
  end.

(** [v.Addr()] *)
Definition Value_Addr (v : Value) : outcome Value :=
  match v with
  | Ref t p => Ok (Direct (TPtr t) (VPtr p))
  | _ => Panic "reflect.Value.Addr of unaddressable value"
  end.

(** [reflect.New(t)]: a pointer to a new zero value of type [t]. *)
Definition New (h : gmap loc val) (t : rtype) : Value * gmap loc val :=
  let l := fresh (dom h) in
  (Direct (TPtr t) (VPtr (l, [])), <[l := zero t]> h).

End reflect.

(** ** [errors] *)

Module errors.

Inductive error := New (text : string).

End errors.

(** ** [go/ast] and [pgo]: the node types the engine names

    Field layouts as declared in [go/ast]. *)

Module ast.
Import reflect.

Definition PosType : rtype := TInt "token.Pos".
Definition StmtType : rtype := TInterface "ast.Stmt".
Definition ExprType : rtype := TInterface "ast.Expr".

Definition BlockStmt : rtype :=
  TStruct "ast.BlockStmt"
    [("Lbrace", PosType); ("List", TSlice StmtType); ("Rbrace", PosType)].

Definition CaseClause : rtype :=
  TStruct "ast.CaseClause"
    [("Case", PosType); ("List", TSlice ExprType);
     ("Colon", PosType); ("Body", TSlice StmtType)].

Definition CommClause : rtype :=
  TStruct "ast.CommClause"
    [("Case", PosType); ("Comm", StmtType);
     ("Colon", PosType); ("Body", TSlice StmtType)].

(** Pattern-side syntax.  The compilers below only build lists of
    statements, so patterns are kept as trees; [Dots] is [pgo.Dots], the
    expression that stands for "...". *)
Inductive Expr :=
| Ident (Name : string)
| CallExpr (Fun : Expr) (Args : list Expr)
| Dots (Dots : token.Pos).

Inductive Stmt :=
| ExprStmt (X : Expr)
| ReturnStmt (Results : list Expr)
| EmptyStmt.

End ast.

Module pgo.

(** Modelled from the spec: [pgo.StmtList], the statement-list pattern of
    a patch, of which the compilers read the field [List]. *)
Record StmtList := { List : list ast.Stmt }.

End pgo.

Module goast.

(** Modelled from the spec: [internal/goast] holds the [reflect.Type]s of
    the three container shapes, [reflect.TypeOf(ast.BlockStmt{})] and so
    on. *)
Definition BlockStmtType : reflect.rtype := ast.BlockStmt.
Definition CaseClauseType : reflect.rtype := ast.CaseClause.
Definition CommClauseType : reflect.rtype := ast.CommClause.

End goast.

(** ** [internal/data]: the binding context *)

Module data.

(** Modelled from the spec: an immutable mapping from keys to values,
    extended by [WithValue], which leaves the context it extends as it was,
    and queried by [Lookup], which answers "not found" and never fails.
    The newest binding of a key is the one found. *)
Section Data.
Context {K V : Type} `{EqDecision K}.

Definition Data : Type := list (K * V).

Definition WithValue (d : Data) (k : K) (v : V) : Data := (k, v) :: d.

Fixpoint Lookup (d : Data) (k : K) : option V :=
  match d with
  | [] => None
  | (k', v) :: d' => if decide (k' = k) then Some v else Lookup d' k
  end.
End Data.
Arguments Data : clear implicits.

End data.

(** ** [internal/engine] *)

Module engine.

(** Modelled from the spec: [Region], a byte range of the source with a
    start [Pos] and an end [End]. *)
Record Region := { Pos : token.Pos; End : token.Pos }.

(** *** State: the store and the change log *)

(** Modelled from the spec: the [Changelog] is an append-only recorder; its
    state is the sequence of the calls [Unchanged(pos, end)] made so far.
    The state of a run is the store and that sequence. *)
Record world := {
  heap : gmap reflect.loc reflect.val;
  changelog : list (token.Pos * token.Pos)
}.

Definition M (A : Type) : Type := world -> outcome (A * world).

Definition ret {A} (a : A) : M A := fun w => Ok (a, w).

Definition bind {A B} (m : M A) (k : A -> M B) : M B :=
  fun w =>
    match m w with
    | Ok (a, w') => k a w'
    | Panic msg => Panic msg
    end.

Declare Scope go_scope.
Delimit Scope go_scope with go.
Notation "x <~ m ;; k" := (bind m (fun x => k))
  (at level 100, m at next level, right associativity) : go_scope.
Notation "m ;;; k" := (bind m (fun _ => k))
  (at level 100, right associativity) : go_scope.
Local Open Scope go_scope.

(** A step that cannot touch the state, and one that reads the store. *)
Definition lift {A} (o : outcome A) : M A :=
  fun w => match o with Ok a => Ok (a, w) | Panic msg => Panic msg end.

Definition liftH {A} (f : gmap reflect.loc reflect.val -> outcome A) : M A :=
  fun w => lift (f (heap w)) w.

Definition New (t : reflect.rtype) : M reflect.Value :=
  fun w =>
    let '(p, h) := reflect.New (heap w) t in
    Ok (p, {| heap := h; changelog := changelog w |}).

Definition Set_ (dst x : reflect.Value) : M unit :=
  fun w =>
    match reflect.Value_Set (heap w) dst x with
    | Ok h => Ok (tt, {| heap := h; changelog := changelog w |})
    | Panic msg => Panic msg
    end.

(** Modelled from the spec: [cl.Unchanged(pos, end)] records the span from
    [pos] to [end]. *)
Definition Unchanged (pos end_ : token.Pos) : M unit :=
  fun w =>
    Ok (tt, {| heap := heap w; changelog := changelog w ++ [(pos, end_)] |}).

(** *** Shape metadata *)

Record stmtListField := {
  FieldIdx : nat;            (* index of the field in Type *)
  Value : reflect.Value      (* captured value of the field *)
}.

Record stmtListData := {
  Type_ : reflect.rtype;     (* BlockStmt, CaseClause or CommClause *)
  StmtFieldIdx : nat;        (* index in Type of the []ast.Stmt *)
  OtherFields : list stmtListField;
  UnchangedRegion : Region
}.

(** Keys of the binding context.  [stmtListKey] is the one value of the
    unexported type [_stmtListKey]; every other key belongs to another
    part of the engine. *)
Inductive key := stmtListKey | otherKey (name : string).

#[global] Instance key_eq_dec : EqDecision key.
Proof. solve_decision. Defined.

(** What a key is bound to.  Only [Match] below binds [stmtListKey], and it
    binds it to a [stmtListData]. *)
Inductive datum :=
| StmtListDatum (sd : stmtListData)
| OtherDatum (v : reflect.Value).

Definition Data : Type := data.Data key datum.

(** [data.Lookup(d, stmtListKey, &sd)] *)
Definition Lookup_stmtListData (d : Data) : option stmtListData :=
  match data.Lookup d stmtListKey with
  | Some (StmtListDatum sd) => Some sd
  | _ => None
  end.

(** The two interfaces of the engine, [Match(v, d, r)] and
    [Replace(d, cl, pos)].  The [Changelog] a replacer is handed
    is the [changelog] of the state. *)
Definition Matcher : Type :=
  reflect.Value -> Data -> Region -> M (Data * bool).

Definition Replacer : Type :=
  Data -> token.Pos -> M (reflect.Value * option errors.error).

Definition dotsStmt (pos : token.Pos) : ast.Stmt :=
  ast.ExprStmt (ast.Dots pos).

(** *** The matcher *)

Module stmtSliceContainerMatcher.

Record t := { Stmts : Matcher  (* matcher for a []Stmt *) }.

(** The loop over the fields of the node: the field called [stmtField]
    goes to [stmtsField], every other one is appended to [fields]. *)
Fixpoint field_loop (ty : reflect.rtype) (v : reflect.Value)
    (stmtField : string) (idxs : list nat)
    (fields : list stmtListField) (stmtsField : stmtListField)
  : outcome (list stmtListField * stmtListField) :=
  match idxs with
  | [] => Ok (fields, stmtsField)
  | i :: idxs' =>
      obind (reflect.Value_Field v i) (fun fv =>
      let f := {| FieldIdx := i; Value := fv |} in
      obind (reflect.Type_Field ty i) (fun tf =>
      if String.eqb tf.1 stmtField
      then field_loop ty v stmtField idxs' fields f
      else field_loop ty v stmtField idxs' (fields ++ [f]) stmtsField))
  end.

Definition Match (m : t) (v : reflect.Value) (d : Data) (r : Region)
  : M (Data * bool) :=
  ty <~ lift (reflect.Value_Type v) ;;
  if negb (reflect.Kind_eqb (reflect.rtype_Kind ty) reflect.Ptr)
  then ret (d, false)
  else
    v <~ liftH (fun h => reflect.Value_Elem h v) ;;
    ty <~ lift (reflect.Type_Elem ty) ;;
    shape <~
      (if reflect.rtype_eqb ty goast.BlockStmtType
       then ret (Some ("List", Pos r))
       else if reflect.rtype_eqb ty goast.CaseClauseType
               || reflect.rtype_eqb ty goast.CommClauseType
       then
         colon <~ lift (reflect.Value_FieldByName v "Colon") ;;
         n <~ liftH (fun h => reflect.Value_Int h colon) ;;
         ret (Some ("Body", n))
       else ret None) ;;
    match shape with
    | None => ret (d, false)
    | Some (stmtField, stmtPreludeEnd) =>
        n <~ lift (reflect.Type_NumField ty) ;;
        fs <~
          lift (field_loop ty v stmtField (seq 0 n) []
                  {| FieldIdx := 0; Value := reflect.Invalid |}) ;;
        let fields := fs.1 in
        let stmtsField := fs.2 in
        let r := {| Pos := token.add stmtPreludeEnd 1; End := End r |} in
        Stmts m (Value stmtsField)
          (data.WithValue d stmtListKey
             (StmtListDatum
                {| Type_ := ty;
                   StmtFieldIdx := FieldIdx stmtsField;
                   OtherFields := fields;
                   UnchangedRegion :=
                     {| Pos := Pos r; End := stmtPreludeEnd |} |}))
          r
    end.

End stmtSliceContainerMatcher.

Module matcherCompiler.

(** Modelled from the spec: the compiler of matchers, declared elsewhere
    in the engine.  The source reads its fields [patchStart] and [patchEnd]
    and calls its method [compile], the generic compiler, on
    [reflect.ValueOf(list)]. *)
Record t := {
  patchStart : token.Pos;
  patchEnd : token.Pos;
  compile : list ast.Stmt -> Matcher
}.

Definition compilePGoStmtList (c : t) (slist : pgo.StmtList)
  : stmtSliceContainerMatcher.t :=
  let list : list ast.Stmt := [] in
  let list :=
    if (0 <? length (pgo.List slist))%nat then
      let list := list ++ [dotsStmt (patchStart c)] in
      let list := list ++ pgo.List slist in
      let list := list ++ [dotsStmt (patchEnd c)] in
      list
    else list in
  {| stmtSliceContainerMatcher.Stmts := compile c list |}.

End matcherCompiler.

(** *** The replacer *)

Module stmtSliceContainerReplacer.

Record t := { Stmts : Replacer  (* replacer for []Stmt *) }.

(** [for _, f := range sd.OtherFields { node.Field(f.FieldIdx).Set(f.Value) }] *)
Fixpoint set_fields (node : reflect.Value) (fs : list stmtListField)
  : M unit :=
  match fs with
  | [] => ret tt
  | f :: fs' =>
      dst <~ lift (reflect.Value_Field node (FieldIdx f)) ;;
      Set_ dst (Value f) ;;;
      set_fields node fs'
  end.

Definition Replace (r : t) (d : Data) (pos : token.Pos)
  : M (reflect.Value * option errors.error) :=
  match Lookup_stmtListData d with
  | None =>
      ret (reflect.Invalid,
           Some (errors.New "no statement matches found"))
  | Some sd =>
      (* Reproduce the original struct without setting Stmts. *)
      p <~ New (Type_ sd) ;;
      node <~ liftH (fun h => reflect.Value_Elem h p) ;;
      set_fields node (OtherFields sd) ;;;
      res <~ Stmts r d (End (UnchangedRegion sd)) ;;
      let stmts := res.1 in
      match res.2 with
      | Some e => ret (reflect.Invalid, Some e)
      | None =>
          dst <~ lift (reflect.Value_Field node (StmtFieldIdx sd)) ;;
          Set_ dst stmts ;;;
          Unchanged (Pos (UnchangedRegion sd))
                    (End (UnchangedRegion sd)) ;;;
          a <~ lift (reflect.Value_Addr node) ;;
          ret (a, None)
      end
  end.

End stmtSliceContainerReplacer.

Module replacerCompiler.

(** Modelled from the spec: the compiler of replacers, as
    [matcherCompiler] above. *)
Record t := {
  patchStart : token.Pos;
  patchEnd : token.Pos;
  compile : list ast.Stmt -> Replacer
}.

Definition compilePGoStmtList (c : t) (slist : pgo.StmtList)
  : stmtSliceContainerReplacer.t :=
  let list : list ast.Stmt := [] in
  let list :=
    if (0 <? length (pgo.List slist))%nat then
      let list := list ++ [dotsStmt (patchStart c)] in
      let list := list ++ pgo.List slist in
      let list := list ++ [dotsStmt (patchEnd c)] in
      list
    else list in
  {| stmtSliceContainerReplacer.Stmts := compile c list |}.

End replacerCompiler.

End engine.

(** * Vocabulary of the statements *)

Module shape.
Import reflect.
Import engine.

(** The three container shapes, each with the name of its statement
    field. *)
Inductive container : rtype -> string -> Prop :=
| block_container : container goast.BlockStmtType "List"
| case_container : container goast.CaseClauseType "Body"
| comm_container : container goast.CommClauseType "Body".

(** [v] is a pointer of static type [*ty] to the place [p]. *)
Definition points_to (h : gmap loc val) (v : reflect.Value)
    (ty : rtype) (p : place) : Prop :=
  Value_Type v = Ok (TPtr ty) /\ load h v = Some (VPtr p).

(** A pointer-typed value holds nil or an address. *)
Definition holds_pointer (h : gmap loc val) (v : reflect.Value) : Prop :=
  load h v = Some VNil \/ exists p, load h v = Some (VPtr p).

Definition fields_of (ty : rtype) : list (string * rtype) :=
  match ty with
  | TStruct _ fs => fs
  | _ => []
  end.

(** The place [p] stores a struct of type [ty] with field values [xs]. *)
Definition node_at (h : gmap loc val) (p : place) (ty : rtype)
    (xs : list val) : Prop :=
  read h p = Some (VStruct xs) /\ length xs = length (fields_of ty).

(** The value of the field called [name]. *)
Definition field_named (ty : rtype) (xs : list val) (name : string)
  : option val :=
  match field_index (fields_of ty) name with
  | Some i => xs !! i
  | None => None
  end.

(** The end of the prelude: the position the region starts at for a block,
    the position of the colon for a clause. *)
Inductive boundary (r : Region) (xs : list val) : rtype -> token.Pos -> Prop :=
| boundary_block : boundary r xs goast.BlockStmtType (Pos r)
| boundary_case c :
    field_named goast.CaseClauseType xs "Colon" = Some (VInt c) ->
    boundary r xs goast.CaseClauseType c
| boundary_comm c :
    field_named goast.CommClauseType xs "Colon" = Some (VInt c) ->
    boundary r xs goast.CommClauseType c.

(** A target of the matcher that is a container node: [v] points to a node
    of container type [ty], stored at [p] with field values [xs]; its
    statement field is called [name] and its prelude ends at [b]. *)
Record target (w : world) (v : reflect.Value) (r : Region) (ty : rtype)
    (name : string) (p : place) (xs : list val) (b : token.Pos) : Prop := {
  target_shape : container ty name;
  target_ptr : points_to (heap w) v ty p;
  target_node : node_at (heap w) p ty xs;
  target_boundary : boundary r xs ty b
}.

(** The reference [v.Field(i)] to field [i] of the node at [p]. *)
Definition field_ref (p : place) (i : nat) (ft : rtype) : stmtListField :=
  {| FieldIdx := i; Value := Ref ft (p.1, p.2 ++ [i]) |}.

Fixpoint refs_from (p : place) (i : nat) (fs : list (string * rtype))
  : list stmtListField :=
  match fs with
  | [] => []
  | f :: fs' => field_ref p i f.2 :: refs_from p (S i) fs'
  end.

(** The shape metadata of the node of type [ty] at [p], with its statement
    field at index [sidx] and its prelude ending at [b]: references to all
    fields but the statement field, in declaration order. *)
Definition metadata (ty : rtype) (p : place) (sidx : nat) (b : token.Pos)
  : stmtListData :=
  {| Type_ := ty;
     StmtFieldIdx := sidx;
     OtherFields :=
       filter (fun f => FieldIdx f <> sidx) (refs_from p 0 (fields_of ty));
     UnchangedRegion := {| Pos := token.add b 1; End := b |} |}.

(** A matcher that accepts and answers the context it was handed; with it
    as the delegate, [Match] shows the metadata it binds. *)
Definition recording : stmtSliceContainerMatcher.t :=
  {| stmtSliceContainerMatcher.Stmts := fun _ d _ => ret (d, true) |}.

(** [sd] is the shape metadata [Match] binds for the target [v]. *)
Definition captured (w : world) (v : reflect.Value) (r : Region)
    (sd : stmtListData) : Prop :=
  stmtSliceContainerMatcher.Match recording v [] r w =
  Ok (([(stmtListKey, StmtListDatum sd)], true), w).

(** Contract of a statement-list matcher: the context it answers still
    binds the shape metadata it was handed. *)
Definition keeps_metadata (mt : Matcher) : Prop :=
  forall v d r w d' ok w',
    mt v d r w = Ok ((d', ok), w') ->
    Lookup_stmtListData d' = Lookup_stmtListData d.

(** Contract of a statement-list replacer: it does not panic, it leaves
    the objects of the store as they are (it may add new ones), and when it
    answers no error it answers a [[]ast.Stmt] that can be read. *)
Record builds (rp : Replacer) : Prop := {
  builds_total : forall d pos w, exists res w', rp d pos w = Ok (res, w');
  builds_frame : forall d pos w res w' l x,
    rp d pos w = Ok (res, w') -> heap w !! l = Some x -> heap w' !! l = Some x;
  builds_slice : forall d pos w stmts w',
    rp d pos w = Ok ((stmts, None), w') ->
    Value_Type stmts = Ok (TSlice ast.StmtType) /\
    is_Some (load (heap w') stmts)
}.

(** The address [reflect.New] hands out in [w], and [w] with an object
    stored there. *)
Definition fresh_loc (w : world) : loc := fresh (dom (heap w)).

Definition with_object (w : world) (l : loc) (x : val) : world :=
  {| heap := <[l := x]> (heap w); changelog := changelog w |}.

End shape.

(** * A small store, used to run the code on concrete inputs *)

Module sample.
Import reflect.
Import engine.

Definition ExprStmt : rtype := TStruct "ast.ExprStmt" [("X", ast.ExprType)].
Definition BadExpr : rtype :=
  TStruct "ast.BadExpr" [("From", ast.PosType); ("To", ast.PosType)].

Definition stmt_at (l : loc) : val := VIface (TPtr ExprStmt) (VPtr (l, [])).

(** The fields of the three container nodes of the store. *)
Definition case_fields : list val :=
  [VInt 3; VSlice [VIface (TPtr BadExpr) (VPtr (7%positive, []))];
   VInt 10; VSlice [stmt_at 4%positive; stmt_at 5%positive]].

Definition block_fields : list val :=
  [VInt 20; VSlice [stmt_at 6%positive]; VInt 29].

Definition comm_fields : list val := [VInt 30; VNil; VInt 33; VNil].

(** [case x: a(); b()] with its colon at offset 10, a block whose brace is
    at offset 20 and a communication clause with its colon at offset 33;
    the objects 4 to 6 are statements, the object 7 is the expression
    [x]. *)
Definition store : gmap loc val :=
  list_to_map
    [(1%positive, VStruct case_fields);
     (2%positive, VStruct block_fields);
     (3%positive, VStruct comm_fields);
     (4%positive, VStruct [VNil]);
     (5%positive, VStruct [VNil]);
     (6%positive, VStruct [VNil]);
     (7%positive, VStruct [VInt 8; VInt 9])].

Definition w0 : world := {| heap := store; changelog := [] |}.

Definition case_ptr : reflect.Value :=
  Direct (TPtr goast.CaseClauseType) (VPtr (1%positive, [])).
Definition block_ptr : reflect.Value :=
  Direct (TPtr goast.BlockStmtType) (VPtr (2%positive, [])).
Definition comm_ptr : reflect.Value :=
  Direct (TPtr goast.CommClauseType) (VPtr (3%positive, [])).
Definition stmt_ptr : reflect.Value :=
  Direct (TPtr ExprStmt) (VPtr (4%positive, [])).

Definition r0 : Region := {| Pos := 5; End := 40 |}.

(** A statement-list matcher that accepts its target and binds it. *)
Definition accept : Matcher :=
  fun v d r => ret (data.WithValue d (otherKey "stmts") (OtherDatum v), true).

Definition m0 : stmtSliceContainerMatcher.t :=
  {| stmtSliceContainerMatcher.Stmts := accept |}.

(** A statement-list replacer that answers the one statement [b()], and
    one that fails. *)
Definition rp0 : stmtSliceContainerReplacer.t :=
  {| stmtSliceContainerReplacer.Stmts :=
       fun d pos =>
         ret (Direct (TSlice ast.StmtType) (VSlice [stmt_at 5%positive]), None) |}.


(** The context and metadata of a match of [case_ptr]. *)
Definition sd0 : stmtListData :=
  shape.metadata goast.CaseClauseType (1%positive, []) 3 10.

Definition d0 : Data :=
  [(otherKey "stmts",
     OtherDatum (Ref (TSlice ast.StmtType) (1%positive, [3%nat])));
   (stmtListKey, StmtListDatum sd0)].

(** The state a replace over [d0] with [rp0] ends in. *)
Definition replaced : world :=
  match stmtSliceContainerReplacer.Replace rp0 d0 0 w0 with
  | Ok (_, w) => w
  | Panic _ => w0
  end.

(** A generic compiler that tells an empty pattern from any other. *)
Definition nonempty_compile : list ast.Stmt -> Matcher :=
  fun pats _ d _ => ret (d, match pats with [] => false | _ => true end).

End sample.

(** Short names for the two methods and for their delegates. *)
Local Abbreviation Match := engine.stmtSliceContainerMatcher.Match.
Local Abbreviation Replace := engine.stmtSliceContainerReplacer.Replace.
Local Abbreviation MStmts := engine.stmtSliceContainerMatcher.Stmts.
Local Abbreviation RStmts := engine.stmtSliceContainerReplacer.Stmts.

(** * Vocabulary of the further properties *)

Module layout.
Import reflect.
Import engine.
Import shape.

(** References to the fields of [fs] that are not called [name], in
    declaration order; [fs] are the fields from index [i] on. *)
Fixpoint others_from (p : place) (i : nat) (fs : list (string * rtype))
    (name : string) : list stmtListField :=
  match fs with
  | [] => []
  | f :: fs' =>
      if String.eqb f.1 name then others_from p (S i) fs' name
      else field_ref p i f.2 :: others_from p (S i) fs' name
  end.

(** The reference to the last field of [fs] called [name], and [sf] when
    there is none. *)
Fixpoint named_from (p : place) (i : nat) (fs : list (string * rtype))
    (name : string) (sf : stmtListField) : stmtListField :=
  match fs with
  | [] => sf
  | f :: fs' =>
      named_from p (S i) fs' name
        (if String.eqb f.1 name then field_ref p i f.2 else sf)
  end.

(** The fields of a new object after the fields [others] have been copied
    into it from the node with fields [xs]. *)
Definition copied (xs : list val) (others : list stmtListField)
    (cur : list val) : list val :=
  foldl (fun c f => <[FieldIdx f := default VNil (xs !! FieldIdx f)]> c)
    cur others.

End layout.

(** * Further samples *)

Module sample2.
Import reflect.
Import engine.

(** A nil pointer to a block, as the body of a function declared without
    one. *)
Definition nil_block_ptr : reflect.Value :=
  Direct (TPtr goast.BlockStmtType) VNil.

(** A statement-list matcher that rejects its target and answers the
    context it was handed. *)
Definition reject : Matcher := fun v d r => ret (d, false).

(** A nested replacer that answers expressions where statements are due,
    and one that answers the zero Value and no error. *)
Definition rp_exprs : stmtSliceContainerReplacer.t :=
  {| stmtSliceContainerReplacer.Stmts :=
       fun d pos => ret (Direct (TSlice ast.ExprType) (VSlice []), None) |}.

Definition rp_zero : stmtSliceContainerReplacer.t :=
  {| stmtSliceContainerReplacer.Stmts :=
       fun d pos => ret (Invalid, None) |}.

(** Metadata that describes the expression statement stored at 4, with its
    one field [X] in the place of the statement field, and a nested replacer
    that answers the expression stored at 7. *)
Definition sd_expr : stmtListData :=
  shape.metadata sample.ExprStmt (4%positive, []) 0 50.

Definition d_expr : Data := [(stmtListKey, StmtListDatum sd_expr)].

Definition rp_expr : stmtSliceContainerReplacer.t :=
  {| stmtSliceContainerReplacer.Stmts :=
       fun d pos =>
         ret (Direct ast.ExprType
                (VIface (TPtr sample.BadExpr) (VPtr (7%positive, []))),
              None) |}.

(** The sample store with one more object, whose one field is a pointer to
    the case clause, and the reference to that field. *)
Definition w_held : world :=
  {| heap := <[8%positive := VStruct [VPtr (1%positive, [])]]> sample.store;
     changelog := [] |}.

Definition held_case_ptr : reflect.Value :=
  Ref (TPtr goast.CaseClauseType) (8%positive, [0%nat]).

(** The state a replace over [d_expr] with [rp_expr] ends in. *)
Definition replaced_expr : world :=
  match stmtSliceContainerReplacer.Replace rp_expr d_expr 0 sample.w0 with
  | Ok (_, w) => w
  | Panic _ => sample.w0
  end.

End sample2.

(** * Facts about the embedding *)

Module token_facts.
Import token.
Lemma wrap_in_range z : in_range z -> wrap z = z.
Proof.
  unfold in_range, int_min, int_max, wrap. intros H.
  rewrite Z.mod_small; lia.
Qed.
Lemma add_1 b : int_min <= b < int_max -> add b 1 = b + 1.
Proof.
  unfold add. intros H. apply wrap_in_range. unfold in_range, int_min, int_max in *. lia.
Qed.
Lemma add_1_max : add int_max 1 = int_min.
Proof. reflexivity. Qed.
End token_facts.

Module reflect_facts.
Import reflect.
Lemma rtype_eqb_true : forall a b, rtype_eqb a b = true -> a = b.
Proof.
  fix IH 1.
  intros [n|n|e|n fs|e] [n'|n'|e'|n' fs'|e']; simpl; try discriminate.
  - intros H%String.eqb_eq. by subst.
  - intros H%String.eqb_eq. by subst.
  - intros H%IH. by subst.
  - intros [H1 H2]%andb_true_iff. apply String.eqb_eq in H1. subst n'.
    f_equal. revert fs' H2.
    induction fs as [|[x t] fs IHfs]; intros [|[y u] fs']; try discriminate; auto.
    intros H. apply andb_true_iff in H as [H H3].
    apply andb_true_iff in H as [H4 H5].
    apply String.eqb_eq in H4. apply IH in H5. subst. f_equal. by apply IHfs.
  - intros H%IH. by subst.
Qed.

Lemma rtype_eqb_false a b : a <> b -> rtype_eqb a b = false.
Proof.
  intros H. destruct (rtype_eqb a b) eqn:E; [|done].
  by apply rtype_eqb_true in E.
Qed.

Lemma val_at_app x path i :
  val_at x (path ++ [i]) =
  match val_at x path with
  | Some (VStruct fs) => fs !! i
  | _ => None
  end.
Proof.
  revert x. induction path as [|j path IH]; intros x; simpl.
  - destruct x; try done. by destruct (fields !! i).
  - destruct x; try done. destruct (fields !! j); [apply IH|done].
Qed.

Lemma read_field h (p : place) xs i :
  read h p = Some (VStruct xs) -> read h (p.1, p.2 ++ [i]) = xs !! i.
Proof.
  unfold read. simpl. destruct (h !! p.1); [|done].
  rewrite val_at_app. by intros ->.
Qed.
End reflect_facts.

Module matcher_facts.
Import reflect engine shape reflect_facts.
Import stmtSliceContainerMatcher.

Lemma points_to_Elem h v ty p :
  points_to h v ty p -> Value_Elem h v = Ok (Ref ty p).
Proof.
  intros [Ht Hl]. destruct v as [|t x|t q]; simplify_eq/=; [done|].
  by rewrite Hl.
Qed.

Lemma Match_container w v r ty name p xs b :
  target w v r ty name p xs b ->
  exists sidx,
    field_index (fields_of ty) name = Some sidx /\
    fields_of ty !! sidx = Some (name, TSlice ast.StmtType) /\
    forall m d,
      Match m v d r w =
      Stmts m (Ref (TSlice ast.StmtType) (p.1, p.2 ++ [sidx]))
        (data.WithValue d stmtListKey (StmtListDatum (metadata ty p sidx b)))
        {| Pos := token.add b 1; End := End r |} w.
Proof.
  intros [Hc Hp [Hn Hlen] Hb].
  destruct Hc; inversion Hb; subst.
  - exists 1%nat. do 2 (split; [done|]). intros m d.
    unfold Match, bind, lift, liftH. rewrite (proj1 Hp). simpl.
    rewrite (points_to_Elem _ _ _ _ Hp). done.
  - exists 3%nat. do 2 (split; [done|]). intros m d.
    unfold Match, bind, lift, liftH. rewrite (proj1 Hp). simpl.
    rewrite (points_to_Elem _ _ _ _ Hp). simpl.
    rewrite (read_field _ _ _ _ Hn). change (xs !! 2%nat = Some (VInt b)) in H. rewrite H. done.
  - exists 3%nat. do 2 (split; [done|]). intros m d.
    unfold Match, bind, lift, liftH. rewrite (proj1 Hp). simpl.
    rewrite (points_to_Elem _ _ _ _ Hp). simpl.
    rewrite (read_field _ _ _ _ Hn). change (xs !! 2%nat = Some (VInt b)) in H. rewrite H. done.
Qed.


Lemma Match_other_shape m v d r w ty :
  Value_Type v = Ok (TPtr ty) -> holds_pointer (heap w) v ->
  (forall name, ~ container ty name) ->
  Match m v d r w = Ok ((d, false), w).
Proof.
  intros Ht Hl Hc. unfold Match, bind, lift, liftH. rewrite Ht. simpl.
  assert (exists v', Value_Elem (heap w) v = Ok v') as [v' ->].
  { unfold holds_pointer in Hl.
    destruct v as [|t x|t q]; simplify_eq/=;
      destruct Hl as [Hl|[p Hl]]; simplify_eq/=; try rewrite Hl; eauto. }
  rewrite !rtype_eqb_false; [done|..]; intros ->; eapply Hc; constructor.
Qed.

(** Whatever the target, [Match] panics, or answers "no match" with the
    context and the state it was given, or is the call of its delegate in
    the state it was given. *)
Lemma Match_run m v d r w :
  (exists msg, Match m v d r w = Panic msg) \/
  Match m v d r w = Ok ((d, false), w) \/
  exists sv d1 r1, Match m v d r w = Stmts m sv d1 r1 w.
Proof.
  unfold Match, bind, liftH, lift, ret.
  repeat (case_match; simplify_eq/=; eauto 6).
  all: right; right; eauto.
Qed.

End matcher_facts.

Module replacer_facts.
Import reflect engine shape reflect_facts.
Import stmtSliceContainerReplacer.

Lemma rtype_eqb_refl : forall a, rtype_eqb a a = true.
Proof.
  fix IH 1. intros [n|n|e|n fs|e]; simpl; rewrite ?String.eqb_refl; auto.
  simpl. induction fs as [|[x t] fs IHfs]; [done|].
  by rewrite String.eqb_refl, IH, IHfs.
Qed.

Lemma read_insert_ne h l x (p : place) :
  p.1 <> l -> read (<[l := x]> h) p = read h p.
Proof. intros Hne. unfold read. by rewrite lookup_insert_ne. Qed.

Lemma read_is_Some h (p : place) x : read h p = Some x -> is_Some (h !! p.1).
Proof. unfold read. destruct (h !! p.1); [eauto|done]. Qed.

Lemma fresh_loc_None w : heap w !! fresh_loc w = None.
Proof. unfold fresh_loc. apply (not_elem_of_dom (heap w)). apply is_fresh. Qed.

Lemma stored_ne_fresh w (p : place) x :
  read (heap w) p = Some x -> p.1 <> fresh_loc w.
Proof.
  intros H%read_is_Some Heq. rewrite Heq, fresh_loc_None in H.
  by destruct H.
Qed.

(** Copying one field of the node at [src] into the object at [l]. *)
Lemma Set_field_copy h cl l cur i ft (src : place) y :
  (i < length cur)%nat -> src.1 <> l -> read h src = Some y ->
  Set_ (Ref ft (l, [i])) (Ref ft src)
    {| heap := <[l := VStruct cur]> h; changelog := cl |} =
  Ok (tt, {| heap := <[l := VStruct (<[i := y]> cur)]> h; changelog := cl |}).
Proof.
  intros Hi Hne Hy. unfold Set_, Value_Set. simpl.
  rewrite rtype_eqb_refl, read_insert_ne, Hy by done.
  unfold write. simpl. rewrite lookup_insert_eq.
  destruct (lookup_lt_is_Some_2 cur i Hi) as [c ->].
  by rewrite insert_insert_eq.
Qed.

Lemma Replace_container rp d pos w ty name p xs sidx b :
  container ty name ->
  node_at (heap w) p ty xs ->
  field_index (fields_of ty) name = Some sidx ->
  Lookup_stmtListData d = Some (metadata ty p sidx b) ->
  let l := fresh_loc w in
  let w1 := with_object w l (VStruct (<[sidx := VNil]> xs)) in
  Replace rp d pos w =
  match Stmts rp d b w1 with
  | Ok (res, w2) =>
      match res.2 with
      | Some e => Ok ((Invalid, Some e), w2)
      | None =>
          bind (Set_ (Ref (TSlice ast.StmtType) (l, [sidx])) res.1) (fun _ =>
          bind (Unchanged (token.add b 1) b) (fun _ =>
          ret (Direct (TPtr ty) (VPtr (l, [])), None))) w2
      end
  | Panic msg => Panic msg
  end.
Proof.
  intros Hc [Hn Hlen] Hidx Hlk l w1.
  pose proof (stored_ne_fresh _ _ _ Hn) as Hne. fold l in Hne.
  unfold Replace. rewrite Hlk.
  destruct Hc; simpl in Hidx; injection Hidx as <-;
    (destruct xs as [|x0 [|x1 [|x2 [|x3 [|? ?]]]]]; simplify_eq/=).
  all: unfold bind, New, reflect.New, liftH, lift; simpl;
    fold (fresh_loc w); fold l;
    repeat (erewrite Set_field_copy;
            [simpl | simpl; lia | done
            | by rewrite (read_field _ _ _ _ Hn)]);
    subst w1; unfold with_object;
    destruct (Stmts rp d b _) as [[res w2]|]; [|done];
    by destruct (res.2).
Qed.

Lemma Replace_missing rp d pos w :
  Lookup_stmtListData d = None ->
  Replace rp d pos w =
  Ok ((Invalid, Some (errors.New "no statement matches found")), w).
Proof. intros H. unfold Replace. by rewrite H. Qed.

(** Assigning a value to field [i] of the object at [l]. *)
Lemma Set_field h cl l cur i t x y :
  Value_Type x = Ok t -> load h x = Some y ->
  h !! l = Some (VStruct cur) -> (i < length cur)%nat ->
  Set_ (Ref t (l, [i])) x {| heap := h; changelog := cl |} =
  Ok (tt, {| heap := <[l := VStruct (<[i := y]> cur)]> h; changelog := cl |}).
Proof.
  intros Ht Hy Hl Hi. unfold Set_, Value_Set, write. simpl.
  destruct (lookup_lt_is_Some_2 cur i Hi) as [c Hc].
  destruct x as [|u z|u q]; simplify_eq/=;
    by rewrite rtype_eqb_refl, ?Hy, Hl, Hc.
Qed.

Lemma field_index_lt fs name i :
  field_index fs name = Some i -> (i < length fs)%nat.
Proof.
  revert i. induction fs as [|[n t] fs IH]; intros i; simpl; [done|].
  destruct (n =? name)%string.
  - intros [= <-]. lia.
  - destruct (field_index fs name); [|done].
    intros [= <-]. specialize (IH _ eq_refl). lia.
Qed.

(** The metadata [Match] binds for a container target. *)
Lemma captured_metadata w v r ty name p xs b sd :
  target w v r ty name p xs b -> captured w v r sd ->
  exists sidx,
    field_index (fields_of ty) name = Some sidx /\
    sd = metadata ty p sidx b.
Proof.
  intros Ht Hc.
  destruct (matcher_facts.Match_container _ _ _ _ _ _ _ _ Ht)
    as (sidx & Hidx & _ & HM).
  exists sidx. split; [done|].
  unfold captured in Hc. rewrite HM in Hc. simpl in Hc.
  unfold ret, data.WithValue in Hc. by simplify_eq.
Qed.

(** A run of [Replace] in which the nested replacer answers statements. *)
Lemma Replace_success rp d pos w ty name p xs sidx b stmts w2 y :
  container ty name ->
  node_at (heap w) p ty xs ->
  field_index (fields_of ty) name = Some sidx ->
  Lookup_stmtListData d = Some (metadata ty p sidx b) ->
  let l := fresh_loc w in
  Stmts rp d b (with_object w l (VStruct (<[sidx := VNil]> xs))) =
    Ok ((stmts, None), w2) ->
  Value_Type stmts = Ok (TSlice ast.StmtType) ->
  load (heap w2) stmts = Some y ->
  heap w2 !! l = Some (VStruct (<[sidx := VNil]> xs)) ->
  Replace rp d pos w =
  Ok ((Direct (TPtr ty) (VPtr (l, [])), None),
      {| heap := <[l := VStruct (<[sidx := y]> xs)]> (heap w2);
         changelog := changelog w2 ++ [(token.add b 1, b)] |}).
Proof.
  intros Hc Hn Hidx Hlk l Hrun Hty Hy Hl.
  rewrite (Replace_container _ _ _ _ _ _ _ _ _ _ Hc Hn Hidx Hlk).
  fold l. rewrite Hrun. simpl. unfold bind.
  destruct w2 as [h2 cl2]. simpl in *.
  erewrite Set_field; [|done|done|done|].
  - simpl. unfold ret. by rewrite list_insert_insert_eq.
  - rewrite length_insert. destruct Hn as [_ ->].
    by apply field_index_lt in Hidx.
Qed.
End replacer_facts.

(** * The claims *)

Import reflect.
Import engine.
Import shape.

(** ** Facts about the sample store *)

Lemma sample_case_target :
  target sample.w0 sample.case_ptr sample.r0 goast.CaseClauseType "Body"
    (1%positive, []) sample.case_fields 10.
Proof.
  split; [constructor | by split | by split | by constructor].
Qed.

Lemma sample_block_target :
  target sample.w0 sample.block_ptr sample.r0 goast.BlockStmtType "List"
    (2%positive, []) sample.block_fields 5.
Proof.
  split; [constructor | by split | by split | apply (boundary_block sample.r0)].
Qed.

Lemma sample_comm_target :
  target sample.w0 sample.comm_ptr sample.r0 goast.CommClauseType "Body"
    (3%positive, []) sample.comm_fields 33.
Proof.
  split; [constructor | by split | by split | by constructor].
Qed.

Lemma sample_accept_keeps_metadata : keeps_metadata sample.accept.
Proof.
  intros v d r w d' ok w' H. unfold sample.accept, ret in H.
  by simplify_eq.
Qed.

Lemma sample_rp0_builds : builds (RStmts sample.rp0).
Proof.
  split; simpl; unfold ret.
  - intros d pos w. eauto.
  - intros d pos w res w' l x H. by simplify_eq.
  - intros d pos w stmts w' H. simplify_eq. split; [done|]. simpl. eauto.
Qed.


Lemma sample_captured : captured sample.w0 sample.case_ptr sample.r0 sample.sd0.
Proof. reflexivity. Qed.

(** The metadata holds references to the fields of the matched node, not
    copies: when the colon of the matched clause is moved to offset 99 after
    the match, the node [Replace] builds has its colon at 99. *)
Example captured_fields_are_references :
  exists h' l w3,
    write sample.store (1%positive, [2%nat]) (VInt 99) = Some h' /\
    Replace sample.rp0 sample.d0 0 {| heap := h'; changelog := [] |} =
    Ok ((Direct (TPtr goast.CaseClauseType) (VPtr (l, [])), None), w3) /\
    read (heap w3) (l, [2%nat]) = Some (VInt 99).
Proof.
  eexists _, _, _. split; [reflexivity|]. split; vm_compute; reflexivity.
Qed.

(** ** The matcher *)

(** C1.  The run of [Match] and then [Replace] on the clause
    [case x: a(); b()], whose colon is at offset 10: the match succeeds, the
    unchanged region it captures is [Pos = 11], [End = 10], which does not
    satisfy [Pos <= End], and the replacer records exactly that region with
    the change log. *)
Theorem C1_unchanged_region_is_degenerate :
  exists d' sd a,
    Match sample.m0 sample.case_ptr [] sample.r0 sample.w0
      = Ok ((d', true), sample.w0) /\
    Lookup_stmtListData d' = Some sd /\
    UnchangedRegion sd = {| Pos := 11; End := 10 |} /\
    ~ (Pos (UnchangedRegion sd) <= End (UnchangedRegion sd)) /\
    Replace sample.rp0 d' 0 sample.w0 = Ok ((a, None), sample.replaced) /\
    changelog sample.replaced = [(11, 10)].
Proof.
  exists sample.d0, sample.sd0. eexists.
  split; [reflexivity|]. split; [reflexivity|]. split; [reflexivity|].
  split; [intros H; vm_compute in H; by apply H|].
  split; vm_compute; reflexivity.
Qed.

(** C2.  For a target that is one of the three container shapes, the
    unchanged region stored in the shape metadata starts at the scan position
    already advanced, which is the prelude boundary plus one in Go's [int]
    arithmetic, and ends at the boundary itself; for every boundary below the
    largest [int] its start is exactly one past its end. *)
Theorem C2_unchanged_region_starts_one_past_its_end w v r ty name p xs b :
  target w v r ty name p xs b ->
  exists sv sd r',
    (forall m d,
        Match m v d r w =
        MStmts m sv (data.WithValue d stmtListKey (StmtListDatum sd)) r' w) /\
    Pos r' = token.add b 1 /\
    Pos (UnchangedRegion sd) = Pos r' /\
    End (UnchangedRegion sd) = b /\
    (token.int_min <= b < token.int_max ->
     Pos (UnchangedRegion sd) = End (UnchangedRegion sd) + 1).
Proof.
  intros Ht.
  destruct (matcher_facts.Match_container _ _ _ _ _ _ _ _ Ht)
    as (sidx & _ & _ & HM).
  eexists _, _, _. split; [exact HM|]. simpl.
  repeat split. apply token_facts.add_1.
Qed.

Lemma C2_witness :
  (exists sv sd r',
      (forall m d,
          Match m sample.case_ptr d sample.r0 sample.w0 =
          MStmts m sv (data.WithValue d stmtListKey (StmtListDatum sd)) r'
            sample.w0) /\
      End (UnchangedRegion sd) = 10 /\
      Pos (UnchangedRegion sd) = End (UnchangedRegion sd) + 1) /\
  (exists sv sd r',
      (forall m d,
          Match m sample.comm_ptr d sample.r0 sample.w0 =
          MStmts m sv (data.WithValue d stmtListKey (StmtListDatum sd)) r'
            sample.w0) /\
      End (UnchangedRegion sd) = 33 /\
      Pos (UnchangedRegion sd) = End (UnchangedRegion sd) + 1).
Proof.
  split.
  - destruct (C2_unchanged_region_starts_one_past_its_end _ _ _ _ _ _ _ _
                sample_case_target) as (sv & sd & r' & HM & _ & _ & He & H1).
    exists sv, sd, r'. split; [exact HM|]. split; [exact He|].
    apply H1. unfold token.int_min, token.int_max. lia.
  - destruct (C2_unchanged_region_starts_one_past_its_end _ _ _ _ _ _ _ _
                sample_comm_target) as (sv & sd & r' & HM & _ & _ & He & H1).
    exists sv, sd, r'. split; [exact HM|]. split; [exact He|].
    apply H1. unfold token.int_min, token.int_max. lia.
Defined.

(** C3.  For a target node of one of the three container shapes, [Match]
    hands its delegate shape metadata that records the type of the node, the
    index of its statement field ([List] for a block, [Body] for a clause)
    and, for every other field and for no other, the field's index and the
    reference to its value, so one entry less than the node has fields; with
    a delegate that succeeds, [Match] succeeds.  For a pointer to a node of
    any other shape, [Match] answers "no match". *)
Theorem C3_shape_coverage :
  (forall w v r ty name p xs b,
      target w v r ty name p xs b ->
      exists sidx sd r',
        fields_of ty !! sidx = Some (name, TSlice ast.StmtType) /\
        Type_ sd = ty /\
        StmtFieldIdx sd = sidx /\
        length (OtherFields sd) = (length (fields_of ty) - 1)%nat /\
        (forall i nm ft,
            fields_of ty !! i = Some (nm, ft) -> i <> sidx ->
            field_ref p i ft ∈ OtherFields sd) /\
        (forall f, f ∈ OtherFields sd -> FieldIdx f <> sidx) /\
        forall m d,
          Match m v d r w =
          MStmts m (Ref (TSlice ast.StmtType) (p.1, p.2 ++ [sidx]))
            (data.WithValue d stmtListKey (StmtListDatum sd)) r' w /\
          forall d' w',
            MStmts m (Ref (TSlice ast.StmtType) (p.1, p.2 ++ [sidx]))
              (data.WithValue d stmtListKey (StmtListDatum sd)) r' w =
            Ok ((d', true), w') ->
            Match m v d r w = Ok ((d', true), w')) /\
  (forall m v d r w ty,
      Value_Type v = Ok (TPtr ty) ->
      holds_pointer (heap w) v ->
      (forall name, ~ container ty name) ->
      Match m v d r w = Ok ((d, false), w)).
Proof.
  split; [|apply matcher_facts.Match_other_shape].
  intros w v r ty name p xs b Ht.
  destruct (matcher_facts.Match_container _ _ _ _ _ _ _ _ Ht)
    as (sidx & Hidx & Hf & HM).
  exists sidx, (metadata ty p sidx b), {| Pos := token.add b 1; End := End r |}.
  split; [done|]. do 2 (split; [done|]).
  assert (length (OtherFields (metadata ty p sidx b))
          = (length (fields_of ty) - 1)%nat /\
          (forall i nm ft,
              fields_of ty !! i = Some (nm, ft) -> i <> sidx ->
              field_ref p i ft ∈ OtherFields (metadata ty p sidx b)) /\
          (forall f, f ∈ OtherFields (metadata ty p sidx b) ->
                     FieldIdx f <> sidx)) as (H1 & H2 & H3).
  { destruct Ht as [Hc _ _ _].
    destruct Hc; simpl in Hidx; injection Hidx as <-; simpl.
    all: split; [done|]; split;
      [ intros i nm ft Hi Hne; apply list_elem_of_filter; split; [done|];
        destruct i as [|[|[|[|i]]]]; simplify_eq/=;
        rewrite !elem_of_cons; auto
      | by intros f [Hf' _]%list_elem_of_filter ]. }
  do 3 (split; [done|]).
  intros m d. split; [apply HM|]. intros d' w' Hok. by rewrite HM.
Qed.

Lemma C3_witness :
  (exists sidx sd r',
      fields_of goast.CaseClauseType !! sidx
        = Some ("Body", TSlice ast.StmtType) /\
      length (OtherFields sd) = 3%nat /\
      Match sample.m0 sample.case_ptr [] sample.r0 sample.w0 =
      MStmts sample.m0 (Ref (TSlice ast.StmtType) (1%positive, [sidx]))
        (data.WithValue [] stmtListKey (StmtListDatum sd)) r' sample.w0) /\
  Match sample.m0 sample.stmt_ptr [] sample.r0 sample.w0 =
  Ok (([], false), sample.w0).
Proof.
  split.
  - destruct (proj1 C3_shape_coverage _ _ _ _ _ _ _ _ sample_case_target)
      as (sidx & sd & r' & Hf & _ & _ & Hlen & _ & _ & HM).
    exists sidx, sd, r'. repeat split; [exact Hf | exact Hlen |].
    exact (proj1 (HM sample.m0 [])).
  - apply (proj2 C3_shape_coverage sample.m0 sample.stmt_ptr [] sample.r0
             sample.w0 sample.ExprStmt).
    + reflexivity.
    + right. by eexists.
    + intros name H. inversion H.
Defined.

(** C5.  For a target that is a container node, [Match] is the call of its
    delegate, in the state [Match] was called in, on the statement field of
    the node, with the context extended by the shape metadata and with the
    region whose start has been advanced to the prelude boundary plus one
    (one past the boundary whenever the boundary is below the largest
    [int]); the answer of [Match] is the answer of that call. *)
Theorem C5_match_is_the_delegate_call w v r ty name p xs b :
  target w v r ty name p xs b ->
  exists sidx sd,
    fields_of ty !! sidx = Some (name, TSlice ast.StmtType) /\
    Type_ sd = ty /\
    StmtFieldIdx sd = sidx /\
    UnchangedRegion sd = {| Pos := token.add b 1; End := b |} /\
    (token.int_min <= b < token.int_max -> token.add b 1 = b + 1) /\
    forall m d,
      Lookup_stmtListData
        (data.WithValue d stmtListKey (StmtListDatum sd)) = Some sd /\
      Match m v d r w =
      MStmts m (Ref (TSlice ast.StmtType) (p.1, p.2 ++ [sidx]))
        (data.WithValue d stmtListKey (StmtListDatum sd))
        {| Pos := token.add b 1; End := End r |} w.
Proof.
  intros Ht.
  destruct (matcher_facts.Match_container _ _ _ _ _ _ _ _ Ht)
    as (sidx & _ & Hf & HM).
  exists sidx, (metadata ty p sidx b).
  split; [done|]. do 3 (split; [done|]).
  split; [apply token_facts.add_1|].
  intros m d. split; [done|apply HM].
Qed.

Lemma C5_witness :
  exists sidx sd,
    UnchangedRegion sd = {| Pos := token.add 5 1; End := 5 |} /\
    token.add 5 1 = 6 /\
    Match sample.m0 sample.block_ptr [] sample.r0 sample.w0 =
    sample.accept (Ref (TSlice ast.StmtType) (2%positive, [sidx]))
      (data.WithValue [] stmtListKey (StmtListDatum sd))
      {| Pos := token.add 5 1; End := 40 |} sample.w0.
Proof.
  destruct (C5_match_is_the_delegate_call _ _ _ _ _ _ _ _ sample_block_target)
    as (sidx & sd & _ & _ & _ & Hur & _ & HM).
  exists sidx, sd. split; [exact Hur|]. split; [reflexivity|].
  exact (proj2 (HM sample.m0 [])).
Defined.



(** ** The replacer *)

(** C6.  Take a match of a container node that succeeds, with a delegate
    that keeps the shape metadata in the context it answers, and a replace
    over the context of that match, run while the node is stored as it was,
    with a statement-list replacer that keeps to its contract.  If the nested
    replacer answers statements, [Replace] answers a pointer of type [*ty],
    [ty] the type of the matched node, to an object that did not exist
    before; the fields of that object are those of the matched node, field
    for field, except the statement field, which holds the statements the
    nested replacer answered. *)
Theorem C6_round_trip m rp v d r w ty name p xs b d' w' pos wr :
  target w v r ty name p xs b ->
  keeps_metadata (MStmts m) ->
  builds (RStmts rp) ->
  Match m v d r w = Ok ((d', true), w') ->
  node_at (heap wr) p ty xs ->
  exists sidx l res w2,
    fields_of ty !! sidx = Some (name, TSlice ast.StmtType) /\
    heap wr !! l = None /\
    RStmts rp d' b (with_object wr l (VStruct (<[sidx := VNil]> xs)))
      = Ok (res, w2) /\
    (res.2 = None ->
     exists y ys w3,
       load (heap w2) res.1 = Some y /\
       Replace rp d' pos wr
         = Ok ((Direct (TPtr ty) (VPtr (l, [])), None), w3) /\
       read (heap w3) (l, []) = Some (VStruct ys) /\
       length ys = length xs /\
       (forall i, i <> sidx -> ys !! i = xs !! i) /\
       ys !! sidx = Some y).
Proof.
  intros Ht Hkeep Hb HM Hn.
  destruct (matcher_facts.Match_container _ _ _ _ _ _ _ _ Ht)
    as (sidx & Hidx & Hf & Heq).
  rewrite Heq in HM. apply Hkeep in HM.
  change (Lookup_stmtListData d' = Some (metadata ty p sidx b)) in HM.
  set (l := fresh_loc wr).
  set (w1 := with_object wr l (VStruct (<[sidx := VNil]> xs))).
  destruct (builds_total _ Hb d' b w1) as (res & w2 & Hrun).
  exists sidx, l, res, w2.
  split; [done|]. split; [apply replacer_facts.fresh_loc_None|].
  split; [done|]. intros Hnone.
  destruct res as [stmts e]. simpl in Hnone. subst e.
  destruct (builds_slice _ Hb _ _ _ _ _ Hrun) as [Hty [y Hy]].
  assert (heap w2 !! l = Some (VStruct (<[sidx := VNil]> xs))) as Hl.
  { eapply (builds_frame _ Hb); [exact Hrun|]. simpl. apply lookup_insert_eq. }
  assert (sidx < length xs)%nat as Hlt.
  { destruct Hn as [_ ->]. by apply replacer_facts.field_index_lt in Hidx. }
  eexists y, (<[sidx := y]> xs), _. split; [done|]. split.
  { exact (replacer_facts.Replace_success rp d' pos wr ty name p xs sidx b
             stmts w2 y (target_shape _ _ _ _ _ _ _ _ Ht) Hn Hidx HM Hrun
             Hty Hy Hl). }
  split; [|split; [|split]].
  - unfold read. simpl. by rewrite lookup_insert_eq.
  - apply length_insert.
  - intros i Hi. by apply list_lookup_insert_ne.
  - by apply list_lookup_insert_eq.
Qed.

Lemma C6_witness :
  exists sidx l res w2,
    fields_of goast.CaseClauseType !! sidx
      = Some ("Body", TSlice ast.StmtType) /\
    heap sample.w0 !! l = None /\
    RStmts sample.rp0 sample.d0 10
      (with_object sample.w0 l (VStruct (<[sidx := VNil]> sample.case_fields)))
      = Ok (res, w2) /\
    (res.2 = None ->
     exists y ys w3,
       load (heap w2) res.1 = Some y /\
       Replace sample.rp0 sample.d0 0 sample.w0
         = Ok ((Direct (TPtr goast.CaseClauseType) (VPtr (l, [])), None), w3) /\
       read (heap w3) (l, []) = Some (VStruct ys) /\
       length ys = length sample.case_fields /\
       (forall i, i <> sidx -> ys !! i = sample.case_fields !! i) /\
       ys !! sidx = Some y).
Proof.
  apply (C6_round_trip sample.m0 sample.rp0 sample.case_ptr [] sample.r0
           sample.w0 goast.CaseClauseType "Body" (1%positive, [])
           sample.case_fields 10 sample.d0 sample.w0 0 sample.w0).
  - exact sample_case_target.
  - exact sample_accept_keeps_metadata.
  - exact sample_rp0_builds.
  - reflexivity.
  - split; reflexivity.
Defined.



(** C8.  The container matcher makes no call of the change log: whatever
    its target, it panics, or answers in the state it was called in, or its
    run is the run of its delegate started in that state.  The container
    replacer records nothing when the context binds no shape metadata: it
    answers in the state it was called in.  With metadata captured from a
    container node, its run is: the construction of the node at a new
    address, which leaves the change log as it was; the run of the nested
    replacer; then, if that answered an error, nothing more; and otherwise
    the assignment of the statement field, one call [Unchanged] with the
    start and the end of the captured region, and the answer. *)
Theorem C8_ledger_discipline :
  (forall m v d r w,
      (exists msg, Match m v d r w = Panic msg) \/
      Match m v d r w = Ok ((d, false), w) \/
      exists sv d1 r1, Match m v d r w = MStmts m sv d1 r1 w) /\
  (forall rp d pos w,
      Lookup_stmtListData d = None ->
      exists res, Replace rp d pos w = Ok (res, w)) /\
  (forall d w sd v r ty name p xs b,
      target w v r ty name p xs b ->
      captured w v r sd ->
      Lookup_stmtListData d = Some sd ->
      exists l sidx w1,
        heap w !! l = None /\
        w1 = with_object w l (VStruct (<[sidx := VNil]> xs)) /\
        changelog w1 = changelog w /\
        forall rp pos,
          Replace rp d pos w =
          match RStmts rp d (End (UnchangedRegion sd)) w1 with
          | Ok (res, w2) =>
              match res.2 with
              | Some e => Ok ((Invalid, Some e), w2)
              | None =>
                  bind (Set_ (Ref (TSlice ast.StmtType) (l, [sidx])) res.1)
                    (fun _ =>
                  bind (Unchanged (Pos (UnchangedRegion sd))
                                  (End (UnchangedRegion sd)))
                    (fun _ =>
                  ret (Direct (TPtr ty) (VPtr (l, [])), None))) w2
              end
          | Panic msg => Panic msg
          end).
Proof.
  split; [exact matcher_facts.Match_run|]. split.
  - intros rp d pos w H. eexists. by apply replacer_facts.Replace_missing.
  - intros d w sd v r ty name p xs b Ht Hc Hlk.
    destruct (replacer_facts.captured_metadata _ _ _ _ _ _ _ _ _ Ht Hc)
      as (sidx & Hidx & ->).
    exists (fresh_loc w), sidx,
      (with_object w (fresh_loc w) (VStruct (<[sidx := VNil]> xs))).
    split; [apply replacer_facts.fresh_loc_None|]. do 2 (split; [done|]).
    intros rp pos.
    exact (replacer_facts.Replace_container rp d pos w ty name p xs sidx b
             (target_shape _ _ _ _ _ _ _ _ Ht)
             (target_node _ _ _ _ _ _ _ _ Ht) Hidx Hlk).
Qed.

Lemma C8_witness :
  (exists res, Replace sample.rp0 [] 0 sample.w0 = Ok (res, sample.w0)) /\
  exists l sidx w1,
    heap sample.w0 !! l = None /\
    w1 = with_object sample.w0 l
           (VStruct (<[sidx := VNil]> sample.case_fields)) /\
    changelog w1 = changelog sample.w0 /\
    forall rp pos,
      Replace rp sample.d0 pos sample.w0 =
      match RStmts rp sample.d0 (End (UnchangedRegion sample.sd0)) w1 with
      | Ok (res, w2) =>
          match res.2 with
          | Some e => Ok ((Invalid, Some e), w2)
          | None =>
              bind (Set_ (Ref (TSlice ast.StmtType) (l, [sidx])) res.1)
                (fun _ =>
              bind (Unchanged (Pos (UnchangedRegion sample.sd0))
                              (End (UnchangedRegion sample.sd0)))
                (fun _ =>
              ret (Direct (TPtr goast.CaseClauseType) (VPtr (l, [])), None)))
                w2
          end
      | Panic msg => Panic msg
      end.
Proof.
  split.
  - apply (proj1 (proj2 C8_ledger_discipline)). reflexivity.
  - apply (proj2 (proj2 C8_ledger_discipline) sample.d0 sample.w0
             sample.sd0 sample.case_ptr sample.r0 goast.CaseClauseType "Body"
             (1%positive, []) sample.case_fields 10).
    + exact sample_case_target.
    + exact sample_captured.
    + reflexivity.
Defined.



(** ** The compilers *)

(** C4, as stated, fails: for a pattern whose explicit statement list is
    empty, what the matcher compiler hands to the generic compiler has no
    leading and no trailing wildcard marker. *)
Lemma C4_empty_pattern_has_no_markers :
  ~ exists mid,
      MStmts
        (matcherCompiler.compilePGoStmtList
           {| matcherCompiler.patchStart := 1;
              matcherCompiler.patchEnd := 9;
              matcherCompiler.compile := sample.nonempty_compile |}
           {| pgo.List := [] |})
      = sample.nonempty_compile (dotsStmt 1 :: mid ++ [dotsStmt 9]).
Proof.
  intros [mid H].
  apply (f_equal (fun mt : Matcher => mt Invalid [] sample.r0 sample.w0)) in H.
  discriminate H.
Qed.

(** C4, amended.  Both compilers hand the generic compiler the explicit
    statements between a wildcard marker at the start of the patch and one
    at its end when there is an explicit statement, and the empty list,
    with no marker, when there is none. *)
Theorem C4_markers_surround_a_nonempty_pattern_only :
  (forall c slist,
      MStmts (matcherCompiler.compilePGoStmtList c slist) =
      matcherCompiler.compile c
        match pgo.List slist with
        | [] => []
        | _ :: _ =>
            dotsStmt (matcherCompiler.patchStart c)
              :: pgo.List slist ++ [dotsStmt (matcherCompiler.patchEnd c)]
        end) /\
  (forall c slist,
      RStmts (replacerCompiler.compilePGoStmtList c slist) =
      replacerCompiler.compile c
        match pgo.List slist with
        | [] => []
        | _ :: _ =>
            dotsStmt (replacerCompiler.patchStart c)
              :: pgo.List slist ++ [dotsStmt (replacerCompiler.patchEnd c)]
        end).
Proof.
  split; intros c [[|s l]]; reflexivity.
Qed.

(** * Further properties of the code *)

Module layout_facts.
Import reflect engine shape layout.
Import stmtSliceContainerMatcher.

(** The loop over the fields, started anywhere in a struct. *)
Lemma field_loop_from n fs p name rest :
  forall done acc sf,
    fs = done ++ rest ->
    field_loop (TStruct n fs) (Ref (TStruct n fs) p) name
      (seq (length done) (length rest)) acc sf =
    Ok (acc ++ others_from p (length done) rest name,
        named_from p (length done) rest name sf).
Proof.
  induction rest as [|[nm ft] rest IH]; intros done acc sf Hfs; simpl.
  - by rewrite app_nil_r.
  - assert (fs !! length done = Some (nm, ft)) as Hk
      by (subst fs; apply list_lookup_middle; done).
    rewrite Hk. simpl.
    specialize (IH (done ++ [(nm, ft)])).
    rewrite length_app in IH. simpl in IH.
    rewrite Nat.add_1_r in IH.
    destruct (nm =? name)%string.
    + apply IH. by rewrite <- app_assoc.
    + rewrite IH by (by rewrite <- app_assoc).
      by rewrite <- app_assoc.
Qed.



Lemma refs_from_length p k fs : length (refs_from p k fs) = length fs.
Proof. revert k. induction fs; intros k; simpl; auto. Qed.

Lemma filter_refs_from_below p k j fs :
  (j < k)%nat ->
  filter (fun f => FieldIdx f <> j) (refs_from p k fs) = refs_from p k fs.
Proof.
  revert k. induction fs as [|g fs IH]; intros k Hj; simpl; [done|].
  rewrite filter_cons_True by (simpl; lia).
  by rewrite IH by lia.
Qed.

(** Without a field called [name] the loop keeps every field. *)
Lemma others_from_absent p k fs name :
  name ∉ fs.*1 ->
  others_from p k fs name = refs_from p k fs /\
  forall sf, named_from p k fs name sf = sf.
Proof.
  revert k. induction fs as [|[nm ft] fs IH]; intros k Hn; simpl; [done|].
  apply not_elem_of_cons in Hn as [Hne Hn]. simpl in Hne.
  destruct (String.eqb_spec nm name) as [->|_]; [done|].
  destruct (IH (S k) Hn) as [-> Hsf]. split; [done|]. intros sf. apply Hsf.
Qed.

(** With field names that are distinct, the loop keeps every field but the
    one called [name]. *)
Lemma others_from_present p fs name st :
  forall k j sf,
    NoDup fs.*1 -> fs !! j = Some (name, st) ->
    others_from p k fs name =
      filter (fun f => FieldIdx f <> (k + j)%nat) (refs_from p k fs) /\
    named_from p k fs name sf = field_ref p (k + j) st /\
    length (others_from p k fs name) = (length fs - 1)%nat.
Proof.
  induction fs as [|[nm ft] fs IH]; intros k j sf Hnd Hj; [done|].
  apply NoDup_cons in Hnd as [Hnotin Hnd]. simpl in Hnotin.
  destruct j as [|j]; simpl in Hj.
  - injection Hj as -> ->. simpl. rewrite String.eqb_refl.
    destruct (others_from_absent p (S k) fs name Hnotin) as [-> Hsf].
    rewrite Hsf, Nat.add_0_r, refs_from_length.
    rewrite filter_cons_False by (simpl; lia).
    rewrite filter_refs_from_below by lia.
    repeat split. lia.
  - assert (nm <> name) as Hne.
    { intros ->. apply Hnotin. apply list_elem_of_fmap.
      exists (name, st). split; [done|]. by eapply list_elem_of_lookup_2. }
    simpl. destruct (String.eqb_spec nm name) as [|_]; [done|].
    destruct (IH (S k) j sf Hnd Hj) as (Ho & -> & Hlen).
    replace (S k + j)%nat with (k + S j)%nat in * by lia.
    rewrite filter_cons_True by (simpl; lia).
    rewrite <- Ho. repeat split. simpl. rewrite Hlen.
    apply lookup_lt_Some in Hj. lia.
Qed.
End layout_facts.

Module rebuild_facts.
Import reflect engine shape layout reflect_facts.
Import stmtSliceContainerReplacer.

Lemma copied_length xs others cur : length (copied xs others cur) = length cur.
Proof.
  revert cur. induction others as [|f others IH]; intros cur; simpl; [done|].
  unfold copied in *. simpl. by rewrite IH, length_insert.
Qed.





(** The object [Replace] builds is a container target again; for a clause
    its boundary is the boundary of the node it was built from. *)
Lemma rebuilt_target h cl l ty name sidx xs y r b :
  container ty name ->
  field_index (fields_of ty) name = Some sidx ->
  length xs = length (fields_of ty) ->
  boundary r xs ty b ->
  h !! l = Some (VStruct (<[sidx := y]> xs)) ->
  forall r', exists b',
    target {| heap := h; changelog := cl |}
      (Direct (TPtr ty) (VPtr (l, []))) r' ty name (l, [])
      (<[sidx := y]> xs) b' /\
    (ty <> goast.BlockStmtType -> b' = b).
Proof.
  intros Hc Hidx Hlen Hbd Hl r'.
  assert (node_at h (l, []) ty (<[sidx := y]> xs)) as Hnew.
  { split; [unfold read; simpl; by rewrite Hl | by rewrite length_insert]. }
  destruct Hc; simpl in Hidx; injection Hidx as <-; inversion Hbd; subst.
  - exists (Pos r'). split; [|done].
    split; [constructor | by split | done | apply (boundary_block r')].
  - exists b. split; [|done].
    split; [constructor | by split | done |].
    apply boundary_case.
    destruct xs as [|x0 [|x1 [|x2 [|x3 ?]]]]; simplify_eq/=; done.
  - exists b. split; [|done].
    split; [constructor | by split | done |].
    apply boundary_comm.
    destruct xs as [|x0 [|x1 [|x2 [|x3 ?]]]]; simplify_eq/=; done.
Qed.
End rebuild_facts.

(** ** The matcher *)

(** X1.  On a nil pointer to one of the three container types [Match]
    panics: the pointer dereferences to the zero Value, and the first
    access to a field of it ([FieldByName("Colon")] for a clause, [Field(0)]
    in the loop for a block) panics before the delegate is reached. *)
Theorem X1_match_panics_on_nil_container m v d r w ty name :
  Value_Type v = Ok (TPtr ty) ->
  container ty name ->
  load (heap w) v = Some VNil ->
  exists msg, Match m v d r w = Panic msg.
Proof.
  intros Ht Hc Hl.
  assert (Value_Elem (heap w) v = Ok Invalid) as He.
  { destruct v as [|t x|t q]; simplify_eq/=; [done|]. by rewrite Hl. }
  unfold stmtSliceContainerMatcher.Match, bind, liftH, lift.
  rewrite Ht. simpl. rewrite He.
  destruct Hc; simpl; eauto.
Qed.

Lemma X1_witness :
  exists msg,
    Match sample.m0 sample2.nil_block_ptr [] sample.r0 sample.w0 = Panic msg.
Proof.
  apply (X1_match_panics_on_nil_container sample.m0 sample2.nil_block_ptr []
           sample.r0 sample.w0 goast.BlockStmtType "List").
  - reflexivity.
  - constructor.
  - reflexivity.
Defined.

(** X2.  The loop over the fields does its work for a struct of any
    layout, not only for the three of [go/ast]: for an addressable struct
    whose field names are distinct and which has a field called
    [stmtField], it does not panic, answers the reference to that field as
    [stmtsField], and answers as [fields] the references to all the other
    fields, each with its index, in declaration order, so one less than the
    struct has fields. *)
Theorem X2_field_loop_partitions_any_struct n fs p name sidx st :
  NoDup fs.*1 ->
  fs !! sidx = Some (name, st) ->
  exists fields,
    stmtSliceContainerMatcher.field_loop (TStruct n fs)
      (Ref (TStruct n fs) p) name (seq 0 (length fs)) []
      {| FieldIdx := 0; Value := Invalid |}
    = Ok (fields, field_ref p sidx st) /\
    fields = filter (fun f => FieldIdx f <> sidx) (refs_from p 0 fs) /\
    length fields = (length fs - 1)%nat.
Proof.
  intros Hnd Hs.
  destruct (layout_facts.others_from_present p fs name st 0 sidx
              {| FieldIdx := 0; Value := Invalid |} Hnd Hs)
    as (Ho & Hn & Hlen).
  exists (layout.others_from p 0 fs name).
  split; [|split; [exact Ho | exact Hlen]].
  pose proof (layout_facts.field_loop_from n fs p name fs [] []
                {| FieldIdx := 0; Value := Invalid |} eq_refl) as Hloop.
  simpl in Hloop. by rewrite Hloop, Hn.
Qed.

Lemma X2_witness :
  exists fields,
    stmtSliceContainerMatcher.field_loop sample.BadExpr
      (Ref sample.BadExpr (7%positive, [])) "To" (seq 0 2) []
      {| FieldIdx := 0; Value := Invalid |}
    = Ok (fields, field_ref (7%positive, []) 1 ast.PosType) /\
    fields = [field_ref (7%positive, []) 0 ast.PosType] /\
    length fields = 1%nat.
Proof.
  destruct (X2_field_loop_partitions_any_struct "ast.BadExpr"
              [("From", ast.PosType); ("To", ast.PosType)]
              (7%positive, []) "To" 1 ast.PosType)
    as (fields & Hrun & Heq & Hlen).
  - apply (bool_decide_unpack _). reflexivity.
  - reflexivity.
  - exists fields. split; [exact Hrun|]. split; [|exact Hlen].
    rewrite Heq. reflexivity.
Defined.

(** X3.  For a pointer to a case clause or a communication clause the
    answer of [Match] does not depend on the start of the region it is
    called with: the boundary is read from the clause's [Colon], and only
    the end of the region is handed on. *)
Theorem X3_clause_match_ignores_scan_position m v d r r' w ty :
  Value_Type v = Ok (TPtr ty) ->
  ty = goast.CaseClauseType \/ ty = goast.CommClauseType ->
  End r = End r' ->
  Match m v d r w = Match m v d r' w.
Proof.
  intros Ht Hty HE.
  unfold stmtSliceContainerMatcher.Match, bind, liftH, lift.
  rewrite Ht. destruct Hty as [-> | ->]; simpl; by rewrite HE.
Qed.

Lemma X3_witness :
  Match sample.m0 sample.case_ptr [] sample.r0 sample.w0 =
  Match sample.m0 sample.case_ptr [] {| Pos := 1000; End := 40 |} sample.w0.
Proof.
  apply (X3_clause_match_ignores_scan_position sample.m0 sample.case_ptr []
           sample.r0 {| Pos := 1000; End := 40 |} sample.w0
           goast.CaseClauseType).
  - reflexivity.
  - by left.
  - reflexivity.
Defined.

(** X9.  A "no match" of the container matcher does not always come with
    the caller's context: when the delegate rejects and answers the context
    it was handed, as a matcher does that has matched nothing, [Match]
    answers "no match" with a context that binds the shape metadata of the
    node. *)
Theorem X9_no_match_can_carry_the_metadata m w v r ty name p xs b d :
  target w v r ty name p xs b ->
  (forall sv d1 r1, exists w', MStmts m sv d1 r1 w = Ok ((d1, false), w')) ->
  exists d' sd w',
    Match m v d r w = Ok ((d', false), w') /\
    d' = data.WithValue d stmtListKey (StmtListDatum sd) /\
    Lookup_stmtListData d' = Some sd /\
    Type_ sd = ty.
Proof.
  intros Ht Hrej.
  destruct (matcher_facts.Match_container _ _ _ _ _ _ _ _ Ht)
    as (sidx & _ & _ & HM).
  destruct (Hrej (Ref (TSlice ast.StmtType) (p.1, p.2 ++ [sidx]))
              (data.WithValue d stmtListKey
                 (StmtListDatum (metadata ty p sidx b)))
              {| Pos := token.add b 1; End := End r |}) as [w' Hw'].
  eexists _, (metadata ty p sidx b), w'.
  split; [by rewrite HM|]. done.
Qed.

Lemma X9_witness :
  exists d' sd w',
    Match {| stmtSliceContainerMatcher.Stmts := sample2.reject |}
      sample.case_ptr [] sample.r0 sample.w0 = Ok ((d', false), w') /\
    d' = data.WithValue [] stmtListKey (StmtListDatum sd) /\
    Lookup_stmtListData d' = Some sd /\
    Type_ sd = goast.CaseClauseType.
Proof.
  apply (X9_no_match_can_carry_the_metadata _ _ _ _ _ _ _ _ _ []
           sample_case_target).
  intros sv d1 r1. by exists sample.w0.
Defined.

(** X10.  [Match] sees its target only through its type and the address it
    holds: two Values of one pointer type that hold the same address, one
    immediate and one a reference to a pointer field, say, get the same
    answer. *)
Theorem X10_match_depends_on_type_and_address m v v' d r w ty p :
  points_to (heap w) v ty p ->
  points_to (heap w) v' ty p ->
  Match m v d r w = Match m v' d r w.
Proof.
  intros Hv Hv'.
  unfold stmtSliceContainerMatcher.Match, bind, liftH, lift.
  rewrite (proj1 Hv), (proj1 Hv'). simpl.
  by rewrite (matcher_facts.points_to_Elem _ _ _ _ Hv),
             (matcher_facts.points_to_Elem _ _ _ _ Hv').
Qed.

Lemma X10_witness :
  Match sample.m0 sample.case_ptr [] sample.r0 sample2.w_held =
  Match sample.m0 sample2.held_case_ptr [] sample.r0 sample2.w_held.
Proof.
  apply (X10_match_depends_on_type_and_address sample.m0 sample.case_ptr
           sample2.held_case_ptr [] sample.r0 sample2.w_held
           goast.CaseClauseType (1%positive, [])).
  - by split.
  - by split.
Defined.

(** X6.  The matcher compiled from a statement-list pattern, run on a
    container node: it is the generic compiler's matcher for the explicit
    statements between two wildcard markers (for the empty list, when there
    is no explicit statement), called on the statement field of the node
    with the context extended by the shape metadata and the region advanced
    past the boundary. *)
Theorem X6_compiled_matcher_on_a_container c slist w v r ty name p xs b :
  target w v r ty name p xs b ->
  exists sidx sd,
    fields_of ty !! sidx = Some (name, TSlice ast.StmtType) /\
    Type_ sd = ty /\
    StmtFieldIdx sd = sidx /\
    forall d,
      Match (matcherCompiler.compilePGoStmtList c slist) v d r w =
      matcherCompiler.compile c
        match pgo.List slist with
        | [] => []
        | _ :: _ =>
            dotsStmt (matcherCompiler.patchStart c)
              :: pgo.List slist ++ [dotsStmt (matcherCompiler.patchEnd c)]
        end
        (Ref (TSlice ast.StmtType) (p.1, p.2 ++ [sidx]))
        (data.WithValue d stmtListKey (StmtListDatum sd))
        {| Pos := token.add b 1; End := End r |} w.
Proof.
  intros Ht.
  destruct (matcher_facts.Match_container _ _ _ _ _ _ _ _ Ht)
    as (sidx & _ & Hf & HM).
  exists sidx, (metadata ty p sidx b). do 3 (split; [done|]).
  intros d. rewrite HM. by destruct slist as [[|s l]].
Qed.

Lemma X6_witness :
  exists sidx sd,
    forall d,
      Match
        (matcherCompiler.compilePGoStmtList
           {| matcherCompiler.patchStart := 1;
              matcherCompiler.patchEnd := 9;
              matcherCompiler.compile := sample.nonempty_compile |}
           {| pgo.List := [ast.ReturnStmt []] |})
        sample.block_ptr d sample.r0 sample.w0 =
      sample.nonempty_compile
        [dotsStmt 1; ast.ReturnStmt []; dotsStmt 9]
        (Ref (TSlice ast.StmtType) (2%positive, [sidx]))
        (data.WithValue d stmtListKey (StmtListDatum sd))
        {| Pos := token.add 5 1; End := 40 |} sample.w0.
Proof.
  destruct (X6_compiled_matcher_on_a_container
              {| matcherCompiler.patchStart := 1;
                 matcherCompiler.patchEnd := 9;
                 matcherCompiler.compile := sample.nonempty_compile |}
              {| pgo.List := [ast.ReturnStmt []] |}
              _ _ _ _ _ _ _ _ sample_block_target)
    as (sidx & sd & _ & _ & _ & HM).
  exists sidx, sd. exact HM.
Defined.

(** ** The replacer *)

(** X4.  [Replace] trusts the nested replacer: when that answers no error
    and a Value that is not of type [[]ast.Stmt] (another type, or the zero
    Value), the assignment of the statement field panics. *)
Theorem X4_replace_panics_on_a_wrong_answer
    rp d pos w sd v r ty name p xs b stmts :
  target w v r ty name p xs b ->
  captured w v r sd ->
  Lookup_stmtListData d = Some sd ->
  (forall w1, exists w2,
      RStmts rp d (End (UnchangedRegion sd)) w1 = Ok ((stmts, None), w2)) ->
  Value_Type stmts <> Ok (TSlice ast.StmtType) ->
  exists msg, Replace rp d pos w = Panic msg.
Proof.
  intros Ht Hc Hlk Hrun Hty.
  destruct (replacer_facts.captured_metadata _ _ _ _ _ _ _ _ _ Ht Hc)
    as (sidx & Hidx & ->).
  rewrite (replacer_facts.Replace_container _ _ _ _ _ _ _ _ _ _
             (target_shape _ _ _ _ _ _ _ _ Ht)
             (target_node _ _ _ _ _ _ _ _ Ht) Hidx Hlk).
  simpl in Hrun.
  destruct (Hrun (with_object w (fresh_loc w)
                    (VStruct (<[sidx := VNil]> xs)))) as [w2 ->].
  simpl. unfold bind, Set_, Value_Set.
  destruct stmts as [|u x|u q]; simpl; eauto.
  all: rewrite reflect_facts.rtype_eqb_false by (by intros ->); eauto.
Qed.

Lemma X4_witness :
  (exists msg, Replace sample2.rp_exprs sample.d0 0 sample.w0 = Panic msg) /\
  (exists msg, Replace sample2.rp_zero sample.d0 0 sample.w0 = Panic msg).
Proof.
  split.
  - apply (X4_replace_panics_on_a_wrong_answer sample2.rp_exprs sample.d0 0
             sample.w0 sample.sd0 sample.case_ptr sample.r0
             goast.CaseClauseType "Body" (1%positive, []) sample.case_fields
             10 (Direct (TSlice ast.ExprType) (VSlice []))).
    + exact sample_case_target.
    + exact sample_captured.
    + reflexivity.
    + intros w1. by exists w1.
    + discriminate.
  - apply (X4_replace_panics_on_a_wrong_answer sample2.rp_zero sample.d0 0
             sample.w0 sample.sd0 sample.case_ptr sample.r0
             goast.CaseClauseType "Body" (1%positive, []) sample.case_fields
             10 Invalid).
    + exact sample_case_target.
    + exact sample_captured.
    + reflexivity.
    + intros w1. by exists w1.
    + discriminate.
Defined.



(** X8.  Whenever [Replace] answers a node from metadata captured from a
    container node whose boundary [b] is below the largest [int], the entry
    it has added to the change log, the last one, is [(b + 1, b)]: the span
    it records starts after it ends. *)
Theorem X8_replace_records_an_inverted_region
    rp d pos w sd v r ty name p xs b a w3 :
  target w v r ty name p xs b ->
  captured w v r sd ->
  Lookup_stmtListData d = Some sd ->
  token.int_min <= b < token.int_max ->
  Replace rp d pos w = Ok ((a, None), w3) ->
  exists w1 res w2,
    RStmts rp d b w1 = Ok (res, w2) /\
    changelog w3 = changelog w2 ++ [(b + 1, b)].
Proof.
  intros Ht Hc Hlk Hb Hrep.
  destruct (replacer_facts.captured_metadata _ _ _ _ _ _ _ _ _ Ht Hc)
    as (sidx & Hidx & ->).
  rewrite (replacer_facts.Replace_container _ _ _ _ _ _ _ _ _ _
             (target_shape _ _ _ _ _ _ _ _ Ht)
             (target_node _ _ _ _ _ _ _ _ Ht) Hidx Hlk) in Hrep.
  simpl in Hrep.
  match type of Hrep with
  | context [RStmts rp d b ?w1] =>
      exists w1; destruct (RStmts rp d b w1) as [[res w2]|] eqn:Hrun;
        [|discriminate]
  end.
  exists res, w2. split; [done|].
  destruct (res.2); [discriminate|].
  unfold bind, Set_, Unchanged, ret in Hrep.
  destruct (Value_Set (heap w2) _ _); [|discriminate].
  injection Hrep as _ <-. simpl.
  by rewrite token_facts.add_1.
Qed.

Lemma X8_witness :
  exists w1 res w2,
    RStmts sample.rp0 sample.d0 10 w1 = Ok (res, w2) /\
    changelog sample.replaced = changelog w2 ++ [(10 + 1, 10)].
Proof.
  apply (X8_replace_records_an_inverted_region sample.rp0 sample.d0 0
           sample.w0 sample.sd0 sample.case_ptr sample.r0
           goast.CaseClauseType "Body" (1%positive, []) sample.case_fields 10
           (Direct (TPtr goast.CaseClauseType)
              (VPtr (fresh_loc sample.w0, [])))
           sample.replaced).
  - exact sample_case_target.
  - exact sample_captured.
  - reflexivity.
  - unfold token.int_min, token.int_max. lia.
  - vm_compute. reflexivity.
Defined.

(** X7.  The node [Replace] answers can be matched again.  With a nested
    replacer that keeps to its contract, [Match] on the answer is the call
    of its delegate on the statement field of the new node, which holds the
    statements the nested replacer answered; the metadata it binds has the
    type and the statement-field index of the metadata the node was built
    from and, for a clause, the same unchanged region. *)
Theorem X7_rebuilt_node_matches_again
    rp d pos w sd v r ty name p xs b a w3 :
  target w v r ty name p xs b ->
  captured w v r sd ->
  Lookup_stmtListData d = Some sd ->
  builds (RStmts rp) ->
  Replace rp d pos w = Ok ((a, None), w3) ->
  exists sv y w1 stmts w2,
    RStmts rp d b w1 = Ok ((stmts, None), w2) /\
    load (heap w2) stmts = Some y /\
    load (heap w3) sv = Some y /\
    forall m' d' r', exists sd' rr,
      Match m' a d' r' w3 =
      MStmts m' sv (data.WithValue d' stmtListKey (StmtListDatum sd')) rr w3 /\
      Type_ sd' = Type_ sd /\
      StmtFieldIdx sd' = StmtFieldIdx sd /\
      (ty <> goast.BlockStmtType -> UnchangedRegion sd' = UnchangedRegion sd).
Proof.
  intros Ht Hc Hlk Hb Hrep.
  destruct (replacer_facts.captured_metadata _ _ _ _ _ _ _ _ _ Ht Hc)
    as (sidx & Hidx & ->).
  pose proof (target_shape _ _ _ _ _ _ _ _ Ht) as Hshape.
  pose proof (target_node _ _ _ _ _ _ _ _ Ht) as Hn.
  pose proof (target_boundary _ _ _ _ _ _ _ _ Ht) as Hbd.
  set (l := fresh_loc w).
  set (w1 := with_object w l (VStruct (<[sidx := VNil]> xs))).
  destruct (builds_total _ Hb d b w1) as ([stmts e] & w2 & Hrun).
  destruct e as [e|].
  { rewrite (replacer_facts.Replace_container _ _ _ _ _ _ _ _ _ _
               Hshape Hn Hidx Hlk) in Hrep.
    fold l w1 in Hrep. rewrite Hrun in Hrep. discriminate Hrep. }
  destruct (builds_slice _ Hb _ _ _ _ _ Hrun) as [Hty [y Hy]].
  assert (heap w2 !! l = Some (VStruct (<[sidx := VNil]> xs))) as Hl.
  { eapply (builds_frame _ Hb); [exact Hrun|]. simpl. apply lookup_insert_eq. }
  rewrite (replacer_facts.Replace_success rp d pos w ty name p xs sidx b
             stmts w2 y Hshape Hn Hidx Hlk Hrun Hty Hy Hl) in Hrep.
  fold l in Hrep. injection Hrep as <- <-.
  assert (sidx < length xs)%nat as Hlt.
  { destruct Hn as [_ ->]. by apply replacer_facts.field_index_lt in Hidx. }
  exists (Ref (TSlice ast.StmtType) (l, [sidx])), y, w1, stmts, w2.
  split; [done|]. split; [done|]. split.
  { simpl. unfold read. simpl. rewrite lookup_insert_eq.
    by rewrite list_lookup_insert_eq. }
  intros m' d' r'.
  destruct (rebuild_facts.rebuilt_target
              (<[l := VStruct (<[sidx := y]> xs)]> (heap w2))
              (changelog w2 ++ [(token.add b 1, b)])
              l ty name sidx xs y r b Hshape Hidx (proj2 Hn) Hbd
              (lookup_insert_eq _ _ _) r') as (b' & Ht' & Hb').
  destruct (matcher_facts.Match_container _ _ _ _ _ _ _ _ Ht')
    as (sidx' & Hidx' & _ & HM).
  assert (sidx' = sidx) as -> by congruence.
  eexists _, _. split; [apply HM|]. simpl.
  split; [done|]. split; [done|].
  intros Hne. by rewrite (Hb' Hne).
Qed.

Lemma X7_witness :
  exists sv y w1 stmts w2,
    RStmts sample.rp0 sample.d0 10 w1 = Ok ((stmts, None), w2) /\
    load (heap w2) stmts = Some y /\
    load (heap sample.replaced) sv = Some y /\
    forall m' d' r', exists sd' rr,
      Match m' (Direct (TPtr goast.CaseClauseType)
                  (VPtr (fresh_loc sample.w0, []))) d' r' sample.replaced =
      MStmts m' sv (data.WithValue d' stmtListKey (StmtListDatum sd')) rr
        sample.replaced /\
      Type_ sd' = Type_ sample.sd0 /\
      StmtFieldIdx sd' = StmtFieldIdx sample.sd0 /\
      (goast.CaseClauseType <> goast.BlockStmtType ->
       UnchangedRegion sd' = UnchangedRegion sample.sd0).
Proof.
  apply (X7_rebuilt_node_matches_again sample.rp0 sample.d0 0 sample.w0
           sample.sd0 sample.case_ptr sample.r0 goast.CaseClauseType "Body"
           (1%positive, []) sample.case_fields 10).
  - exact sample_case_target.
  - exact sample_captured.
  - reflexivity.
  - exact sample_rp0_builds.
  - vm_compute. reflexivity.
Defined.
